(** * Tic-Tac-Toe: the win evaluator and the turn-taking session

    A shallow embedding of [src/tic_tac_toe_frontend/src/components/TicTacToe.tsx]
    (the second copy of the component, with chess-piece icons, has the same
    [calculateWinner], [resetGame] and [handleClick], character for
    character).

    - a cell is the TypeScript type [Player = "X" | "O" | null];
    - the board is a JavaScript array of cells, a [list Player];
    - reading an array at an index that is not one of its positions gives
      [undefined]; a read therefore has type [option Player], with [None]
      for [undefined];
    - the component state is the triple of [useState] cells
      [board], [xIsNext], [hasStarted]; an event handler maps the state it
      was rendered with to the state of the next render. *)

From stdpp Require Import base list gmap strings pretty.
From Stdlib Require Import ZArith Lia.

Local Open Scope Z_scope.

(** ** Cells and array reads *)

Inductive Player : Type :=
| X
| O
| Null.

#[global] Instance Player_eq_dec : EqDecision Player.
Proof. solve_decision. Defined.

(** [squares[i]] for a number [i] that is an integer: an element when
    [0 <= i < squares.length], [undefined] otherwise. *)
Definition js_get (squares : list Player) (i : Z) : option Player :=
  if decide (0 <= i) then squares !! Z.to_nat i else None.

(** [arr[i] = v] on a position [0 <= i < arr.length]: the element is
    replaced and the length is kept.  (Outside that range JavaScript would
    grow the array or add a property; [handleClick] never gets there, see
    [handleClick_writes_in_range].) *)
Definition js_set (arr : list Player) (i : Z) (v : Player) : list Player :=
  <[Z.to_nat i := v]> arr.

(** JavaScript truthiness of a cell: the two non-empty strings are truthy,
    [null] is falsy. *)
Definition truthy (p : Player) : bool :=
  match p with
  | X | O => true
  | Null => false
  end.

(** [u === v] on values read from the board. *)
Definition strict_eq (u v : option Player) : bool := bool_decide (u = v).

(** [v !== null]: [undefined !== null] is [true]. *)
Definition strict_neq_null (v : option Player) : bool :=
  negb (bool_decide (v = Some Null)).

(** ** calculateWinner *)

Record WinnerResult : Type := mkWinnerResult {
  winner : Player;
  line : option (list Z)
}.

Definition lines : list (Z * Z * Z) :=
  [ (0, 1, 2); (3, 4, 5); (6, 7, 8);
    (0, 3, 6); (1, 4, 7); (2, 5, 8);
    (0, 4, 8); (2, 4, 6) ].

(** The [for (const [a, b, c] of lines)] loop, over the lines still to be
    visited.  [squares[a] && ...] fails on [undefined] and on [null]. *)
Fixpoint scan_lines (squares : list Player) (ls : list (Z * Z * Z))
  : WinnerResult :=
  match ls with
  | [] => {| winner := Null; line := None |}
  | (a, b, c) :: rest =>
      match js_get squares a with
      | Some p =>
          if truthy p
             && strict_eq (Some p) (js_get squares b)
             && strict_eq (Some p) (js_get squares c)
          then {| winner := p; line := Some [a; b; c] |}
          else scan_lines squares rest
      | None => scan_lines squares rest
      end
  end.

Definition calculateWinner (squares : list Player) : WinnerResult :=
  scan_lines squares lines.

(** ** The component state and its derived values *)

Record State : Type := mkState {
  board : list Player;
  xIsNext : bool;
  hasStarted : bool
}.

(** [useState(Array(9).fill(null))], [useState(true)], [useState(false)]. *)
Definition initialState : State :=
  {| board := replicate 9 Null; xIsNext := true; hasStarted := false |}.

(** [board.every((c) => c !== null)]. *)
Definition isBoardFull (b : list Player) : bool :=
  forallb (fun c => strict_neq_null (Some c)) b.

(** [!winner && isBoardFull]. *)
Definition isDraw (st : State) : bool :=
  negb (truthy (winner (calculateWinner (board st))))
  && isBoardFull (board st).

(** [Boolean(winner) || isDraw]. *)
Definition isGameOver (st : State) : bool :=
  truthy (winner (calculateWinner (board st))) || isDraw st.

Definition resetGame (st : State) : State :=
  {| board := replicate 9 Null; xIsNext := true; hasStarted := false |}.

Definition handleClick (st : State) (index : Z) : State :=
  if isGameOver st || strict_neq_null (js_get (board st) index)
  then st
  else
    let nextBoard := js_set (board st) index (if xIsNext st then X else O) in
    {| board := nextBoard;
       xIsNext := negb (xIsNext st);
       hasStarted := if negb (hasStarted st) then true else hasStarted st |}.

(** ** Verdict and status *)

(** The verdict of the evaluator on a board: the winner and line of
    [calculateWinner] when there is a winner, a draw when there is none and
    every cell is filled. *)
Inductive Verdict : Type :=
| InProgress
| Win (mark : Player) (l : option (list Z))
| Draw.

#[global] Instance Verdict_eq_dec : EqDecision Verdict.
Proof. solve_decision. Defined.

Definition evaluate (b : list Player) : Verdict :=
  let r := calculateWinner b in
  if truthy (winner r) then Win (winner r) (line r)
  else if isBoardFull b then Draw
  else InProgress.

(** The three-way classification the component renders ([statusText] and
    [statusColor] branch on [winner], then on [isDraw]). *)
Inductive Status : Type :=
| Playing
| Won (mark : Player) (l : option (list Z))
| Drawn.

#[global] Instance Status_eq_dec : EqDecision Status.
Proof. solve_decision. Defined.

Definition status (st : State) : Status :=
  let r := calculateWinner (board st) in
  if truthy (winner r) then Won (winner r) (line r)
  else if isDraw st then Drawn
  else Playing.

Definition terminal (s : Status) : Prop :=
  match s with
  | Playing => False
  | Won _ _ | Drawn => True
  end.

(** A sequence of clicks, one render apart. *)
Definition play (st : State) (moves : list Z) : State :=
  foldl handleClick st moves.

(** ** What it means for a line to be won *)

(** The three cells of [t] all hold the non-empty mark [v]. *)
Definition holds_line (b : list Player) (v : Player) (t : Z * Z * Z) : Prop :=
  v ≠ Null ∧
  js_get b t.1.1 = Some v ∧ js_get b t.1.2 = Some v ∧ js_get b t.2 = Some v.

Definition line_matches (b : list Player) (t : Z * Z * Z) : Prop :=
  ∃ v, holds_line b v t.

Definition holds_lineb (b : list Player) (v : Player) (t : Z * Z * Z) : bool :=
  truthy v
  && strict_eq (js_get b t.1.1) (Some v)
  && strict_eq (js_get b t.1.2) (Some v)
  && strict_eq (js_get b t.2) (Some v).

(** Some line of the fixed list is held by [v]. *)
Definition has_line (b : list Player) (v : Player) : bool :=
  existsb (holds_lineb b v) lines.

(** Number of cells of the board holding [v]. *)
Fixpoint count_mark (v : Player) (b : list Player) : nat :=
  match b with
  | [] => 0%nat
  | c :: rest => ((if decide (c = v) then 1 else 0) + count_mark v rest)%nat
  end.

(** ** The session's turn and the reachable states *)

(** The mark that the next accepted click writes, [xIsNext ? "X" : "O"]. *)
Definition currentTurn (st : State) : Player :=
  if xIsNext st then X else O.

Definition status_of_verdict (v : Verdict) : Status :=
  match v with
  | InProgress => Playing
  | Win m l => Won m l
  | Draw => Drawn
  end.

(** States the component can be in: the initial one, and any state a click
    or a reset makes of such a state. *)
Inductive reachable : State → Prop :=
| reach_init : reachable initialState
| reach_click st index : reachable st → reachable (handleClick st index)
| reach_reset st : reachable st → reachable (resetGame st).

(** With X to move the two marks are level; with O to move X is one ahead. *)
Definition turn_counts (st : State) : Prop :=
  (currentTurn st = X →
   count_mark X (board st) = count_mark O (board st))
  ∧ (currentTurn st = O →
     count_mark X (board st) = S (count_mark O (board st))).

(** Not both marks hold a line. *)
Definition one_sided (b : list Player) : Prop :=
  ¬ (has_line b X = true ∧ has_line b O = true).

(** ** The evaluator over a store of arrays

  The board is a JavaScript array, a mutable object that the component
  passes by reference.  To speak about what the evaluator does to its
  argument, arrays live in a store and programs are store transformers. *)

Module Store.

Abbreviation store := (gmap nat (list Player)).

Definition M (A : Type) : Type := store → A * store.

Definition ret {A} (a : A) : M A := λ h, (a, h).

Definition bind {A B} (c : M A) (k : A → M B) : M B :=
  λ h, let (a, h') := c h in k a h'.

Notation "'run' x <- c ;; k" := (bind c (λ x, k))
  (at level 10, x name, c at level 99, k at level 200).

(** [arr[i]] on the array at [r]. *)
Definition readCell (r : nat) (i : Z) : M (option Player) :=
  λ h, (h !! r ≫= λ arr, js_get arr i, h).

(** The elements of the array at [r], as [every] visits them. *)
Definition readArray (r : nat) : M (list Player) :=
  λ h, (default [] (h !! r), h).

(** [arr[i] = v] on the array at [r]. *)
Definition writeCell (r : nat) (i : Z) (v : Player) : M unit :=
  λ h, (tt, alter (λ arr, js_set arr i v) r h).

(** [arr.slice()]: a new array with the same elements. *)
Definition slice (r : nat) : M nat :=
  λ h, let r' := fresh (dom h) in (r', <[r' := default [] (h !! r)]> h).

(** The loop of [calculateWinner], with the reads of [squares[a]],
    [squares[b]] and [squares[c]] in the order [&&] makes them. *)
Fixpoint scan_lines (r : nat) (ls : list (Z * Z * Z)) : M WinnerResult :=
  match ls with
  | [] => ret {| winner := Null; line := None |}
  | (a, b, c) :: rest =>
      run sa <- readCell r a ;;
      match sa with
      | Some p =>
          if truthy p then
            (run sb <- readCell r b ;;
             if strict_eq (Some p) sb then
               (run sc <- readCell r c ;;
                if strict_eq (Some p) sc
                then ret {| winner := p; line := Some [a; b; c] |}
                else scan_lines r rest)
             else scan_lines r rest)
          else scan_lines r rest
      | None => scan_lines r rest
      end
  end.

Definition calculateWinner (r : nat) : M WinnerResult :=
  scan_lines r lines.

Definition isBoardFull (r : nat) : M bool :=
  run arr <- readArray r ;;
  ret (forallb (λ c, strict_neq_null (Some c)) arr).

(** The verdict on the array at [r]. *)
Definition evaluate (r : nat) : M Verdict :=
  run w <- calculateWinner r ;;
  if truthy (winner w) then ret (Win (winner w) (line w))
  else
    (run full <- isBoardFull r ;;
     ret (if full then Draw else InProgress)).

(** [const nextBoard = board.slice(); nextBoard[index] = mark]. *)
Definition nextBoard (r : nat) (index : Z) (mark : Player) : M nat :=
  run r' <- slice r ;;
  run u <- writeCell r' index mark ;;
  ret r'.

End Store.

(** ** What the component renders *)

(** The theme constants the status line and the cells use. *)
Module COLORS.
Definition primary : string := "#2563EB".
Definition secondary : string := "#F59E0B".
Definition error : string := "#EF4444".
Definition text : string := "#111827".
End COLORS.

(** A cell inside a template literal: the string itself, and [null] prints
    as the word. *)
Definition Player_to_string (p : Player) : string :=
  match p with
  | X => "X"
  | O => "O"
  | Null => "null"
  end.

(** [statusText]: the winner, the draw, or whose turn it is. *)
Definition statusText (st : State) : string :=
  let w := winner (calculateWinner (board st)) in
  if truthy w then "Winner: " +:+ Player_to_string w
  else if isDraw st then "It's a draw!"
  else "Turn: " +:+ (if xIsNext st then "X" else "O").

(** [statusText] of the component with piece icons, which names the marks
    Knight and Queen. *)
Definition statusTextPieces (st : State) : string :=
  let w := winner (calculateWinner (board st)) in
  if truthy w
  then "Winner: " +:+ (if bool_decide (w = X) then "Knight" else "Queen")
  else if isDraw st then "It's a draw!"
  else "Turn: " +:+ (if xIsNext st then "Knight" else "Queen").

(** [statusColor]. *)
Definition statusColor (st : State) : string :=
  let w := winner (calculateWinner (board st)) in
  if truthy w
  then (if bool_decide (w = X) then COLORS.primary else COLORS.secondary)
  else if isDraw st then COLORS.error
  else COLORS.text.

(** The colour of the mark drawn in a cell. *)
Definition cellColor (value : Player) : string :=
  if bool_decide (value = X) then COLORS.primary
  else if bool_decide (value = O) then COLORS.secondary
  else COLORS.text.

(** [Boolean(line) && line.includes(idx)]: an array is truthy, [null] is
    not. *)
Definition highlight (st : State) (idx : Z) : bool :=
  match line (calculateWinner (board st)) with
  | Some l => bool_decide (idx ∈ l)
  | None => false
  end.

(** The highlight flag of every button that [board.map] renders, in board
    order. *)
Definition highlights (st : State) : list bool :=
  imap (λ idx _, highlight st (Z.of_nat idx)) (board st).

(** The [aria-label] of the button at [idx] in the component with piece
    icons: the 1-based cell number, then the piece when the cell is
    marked. *)
Definition ariaPiece (value : Player) : string :=
  if bool_decide (value = X) then "Knight"
  else if bool_decide (value = O) then "Queen"
  else "Empty".

Definition ariaLabel (idx : nat) (value : Player) : string :=
  "Cell " +:+ pretty (idx + 1)%nat
  +:+ (if truthy value then " with " +:+ ariaPiece value else "").

(** ** Notions used to state properties *)

(** The board with the two marks exchanged. *)
Definition swap_mark (p : Player) : Player :=
  match p with
  | X => O
  | O => X
  | Null => Null
  end.

(** The number of clicks of a sequence that pass the guard of
    [handleClick]. *)
Fixpoint accepted (st : State) (moves : list Z) : nat :=
  match moves with
  | [] => 0%nat
  | index :: rest =>
      ((if isGameOver st || strict_neq_null (js_get (board st) index)
        then 0 else 1)
       + accepted (handleClick st index) rest)%nat
  end.

(** ** Sample boards and states *)

(** X holds the top row after the clicks 0, 3, 1, 4, 2. *)
Definition top_row_board : list Player :=
  [X; X; X; O; O; Null; Null; Null; Null].

Definition top_row_state : State := play initialState [0; 3; 1; 4; 2].

(** ** Basic facts *)

Lemma truthy_not_null p : truthy p = true ↔ p ≠ Null.
Proof. destruct p; simpl; split; intros; congruence. Qed.

Lemma truthy_false p : truthy p = false ↔ p = Null.
Proof. destruct p; simpl; split; intros; congruence. Qed.

Lemma strict_eq_true u v : strict_eq u v = true ↔ u = v.
Proof. unfold strict_eq. apply bool_decide_eq_true. Qed.

Lemma strict_neq_null_false v : strict_neq_null v = false ↔ v = Some Null.
Proof.
  unfold strict_neq_null. rewrite negb_false_iff. apply bool_decide_eq_true.
Qed.

Lemma holds_lineb_spec b v t : holds_lineb b v t = true ↔ holds_line b v t.
Proof.
  unfold holds_lineb, holds_line.
  rewrite !andb_true_iff, !strict_eq_true, truthy_not_null. tauto.
Qed.

Lemma js_get_Some b i c :
  js_get b i = Some c → 0 <= i < Z.of_nat (length b).
Proof.
  unfold js_get. case_decide; [|discriminate].
  intros Hl%lookup_lt_Some. lia.
Qed.

Lemma js_get_outside b i :
  ¬ (0 <= i < Z.of_nat (length b)) → js_get b i = None.
Proof.
  intros Hout. destruct (js_get b i) eqn:E; [|done].
  apply js_get_Some in E. contradiction.
Qed.

Lemma js_get_inside b i :
  0 <= i < Z.of_nat (length b) → is_Some (js_get b i).
Proof.
  intros Hi. unfold js_get. rewrite decide_True by lia.
  apply lookup_lt_is_Some_2. lia.
Qed.

Lemma js_get_set_eq b i v c :
  js_get b i = Some c → js_get (js_set b i v) i = Some v.
Proof.
  intros Hc. pose proof (js_get_Some _ _ _ Hc) as Hr.
  unfold js_get, js_set. rewrite decide_True by lia.
  apply list_lookup_insert_eq. lia.
Qed.

Lemma js_get_set_ne b i j v :
  0 <= i → j ≠ i → js_get (js_set b i v) j = js_get b j.
Proof.
  intros Hi Hne. unfold js_get, js_set. case_decide; [|done].
  apply list_lookup_insert_ne. lia.
Qed.

Lemma js_set_length b i v : length (js_set b i v) = length b.
Proof. unfold js_set. apply length_insert. Qed.

Lemma isBoardFull_spec b : isBoardFull b = true ↔ ∀ c, c ∈ b → c ≠ Null.
Proof.
  unfold isBoardFull. rewrite forallb_forall. split.
  - intros H c Hc Heq. apply list_elem_of_In in Hc. specialize (H c Hc).
    subst c. discriminate.
  - intros H c Hc. apply list_elem_of_In, H in Hc.
    destruct c; [done | done | congruence].
Qed.

Lemma isBoardFull_false b : isBoardFull b = false ↔ ∃ c, c ∈ b ∧ c = Null.
Proof.
  split.
  - induction b as [|c b IH]; [discriminate|].
    destruct c.
    + intros H. destruct (IH H) as (x & Hx & ->). exists Null. split; [by right|done].
    + intros H. destruct (IH H) as (x & Hx & ->). exists Null. split; [by right|done].
    + intros _. exists Null. split; [by left|done].
  - intros (c & Hc & ->). destruct (isBoardFull b) eqn:E; [|done].
    pose proof (proj1 (isBoardFull_spec b) E Null Hc). done.
Qed.

Lemma line_matches_bool b t :
  line_matches b t ↔ holds_lineb b X t || holds_lineb b O t = true.
Proof.
  rewrite orb_true_iff, !holds_lineb_spec. split.
  - intros [v Hv]. destruct v; [by left | by right |]. by destruct Hv.
  - intros [H|H]; eexists; exact H.
Qed.

(** ** The line scan finds the first matching line *)

Section scan.
Variable squares : list Player.

Lemma scan_lines_skip a b c rest :
  ¬ line_matches squares (a, b, c) →
  scan_lines squares ((a, b, c) :: rest) = scan_lines squares rest.
Proof.
  intros Hno. simpl. destruct (js_get squares a) as [p|] eqn:Ea; [|done].
  destruct (truthy p && _ && _) eqn:E; [|done].
  exfalso. apply Hno. exists p.
  apply andb_prop in E as [[Hp Hb]%andb_prop Hc].
  apply truthy_not_null in Hp.
  apply strict_eq_true in Hb. apply strict_eq_true in Hc.
  unfold holds_line; simpl. by split_and!.
Qed.

Lemma scan_lines_hit v a b c rest :
  holds_line squares v (a, b, c) →
  scan_lines squares ((a, b, c) :: rest)
  = {| winner := v; line := Some [a; b; c] |}.
Proof.
  intros (Hv & Ha & Hb & Hc); simpl in *. rewrite Ha, Hb, Hc.
  apply truthy_not_null in Hv. rewrite Hv.
  unfold strict_eq. by rewrite !bool_decide_eq_true_2.
Qed.

Lemma scan_lines_first pre v a b c post :
  (∀ t, t ∈ pre → ¬ line_matches squares t) →
  holds_line squares v (a, b, c) →
  scan_lines squares (pre ++ (a, b, c) :: post)
  = {| winner := v; line := Some [a; b; c] |}.
Proof.
  intros Hpre Hv. induction pre as [|[[x y] z] pre IH].
  - by apply scan_lines_hit.
  - change (scan_lines squares ((x, y, z) :: (pre ++ (a, b, c) :: post)) =
             {| winner := v; line := Some [a; b; c] |}).
    rewrite scan_lines_skip.
    + apply IH. intros t Ht. apply Hpre. by right.
    + apply Hpre. by left.
Qed.

Lemma scan_lines_none ls :
  (∀ t, t ∈ ls → ¬ line_matches squares t) →
  scan_lines squares ls = {| winner := Null; line := None |}.
Proof.
  induction ls as [|[[x y] z] ls IH]; intros Hno; [done|].
  rewrite scan_lines_skip.
  - apply IH. intros t Ht. apply Hno. by right.
  - apply Hno. by left.
Qed.

(** Every run of the loop ends in one of the two ways above. *)
Lemma scan_lines_cases ls :
  (∃ pre v a b c post,
      ls = pre ++ (a, b, c) :: post ∧
      (∀ t, t ∈ pre → ¬ line_matches squares t) ∧
      holds_line squares v (a, b, c) ∧
      scan_lines squares ls = {| winner := v; line := Some [a; b; c] |})
  ∨ ((∀ t, t ∈ ls → ¬ line_matches squares t) ∧
     scan_lines squares ls = {| winner := Null; line := None |}).
Proof.
  induction ls as [|[[x y] z] ls IH].
  - right. split; [|done]. intros t Ht. by apply elem_of_nil in Ht.
  - destruct (holds_lineb squares X (x, y, z) || holds_lineb squares O (x, y, z))
      eqn:E.
    + apply line_matches_bool in E as [v Hv].
      left. exists [], v, x, y, z, ls. split_and!; [done| |done|].
      * intros t Ht. by apply elem_of_nil in Ht.
      * by apply scan_lines_hit.
    + assert (¬ line_matches squares (x, y, z)) as Hno.
      { intros H%line_matches_bool. congruence. }
      rewrite scan_lines_skip by done.
      destruct IH as [(pre & v & a & b & c & post & -> & Hpre & Hv & Hs)|[Hall Hs]].
      * left. exists ((x, y, z) :: pre), v, a, b, c, post.
        split_and!; [done| |done|done].
        intros t [->|Ht]%elem_of_cons; [done|by apply Hpre].
      * right. split; [|done].
        intros t [->|Ht]%elem_of_cons; [done|by apply Hall].
Qed.
End scan.

(** ** The verdict of the evaluator *)

Lemma evaluate_first_line b pre t post v :
  lines = pre ++ t :: post →
  (∀ t', t' ∈ pre → ¬ line_matches b t') →
  holds_line b v t →
  evaluate b = Win v (Some [t.1.1; t.1.2; t.2]).
Proof.
  intros Hl Hpre Hv. destruct t as [[x y] z].
  unfold evaluate, calculateWinner. rewrite Hl.
  rewrite (scan_lines_first b pre v x y z post Hpre Hv). simpl.
  destruct Hv as [Hv%truthy_not_null _]. by rewrite Hv.
Qed.

Lemma evaluate_no_line b :
  (∀ t, t ∈ lines → ¬ line_matches b t) →
  evaluate b = if isBoardFull b then Draw else InProgress.
Proof.
  intros Hno. unfold evaluate, calculateWinner.
  by rewrite (scan_lines_none b lines Hno).
Qed.

Lemma evaluate_cases b :
  (∃ pre t post v,
      lines = pre ++ t :: post ∧
      (∀ t', t' ∈ pre → ¬ line_matches b t') ∧
      holds_line b v t ∧
      evaluate b = Win v (Some [t.1.1; t.1.2; t.2]))
  ∨ ((∀ t, t ∈ lines → ¬ line_matches b t) ∧
     evaluate b = if isBoardFull b then Draw else InProgress).
Proof.
  destruct (scan_lines_cases b lines)
    as [(pre & v & x & y & z & post & Hl & Hpre & Hv & _)|[Hno _]].
  - left. exists pre, (x, y, z), post, v. split_and!; [done..|].
    by apply (evaluate_first_line b pre (x, y, z) post v).
  - right. split; [done|]. by apply evaluate_no_line.
Qed.

Lemma line_in_lines pre (t : Z * Z * Z) post :
  lines = pre ++ t :: post → t ∈ lines.
Proof. intros ->. apply elem_of_app. right. by left. Qed.

(** C1.  On every board of 9 cells the evaluator visits the 8 triples in
    the order rows, columns, diagonals; its verdict is [Win v t] exactly
    when [t] is the first triple of that order whose three cells all hold
    the same non-empty mark [v]; when no triple matches, the verdict is
    [Draw] if every cell is non-empty and [InProgress] otherwise. *)
Theorem evaluate_first_matching_triple (b : list Player) :
  length b = 9%nat →
  lines = [ (0, 1, 2); (3, 4, 5); (6, 7, 8);
            (0, 3, 6); (1, 4, 7); (2, 5, 8);
            (0, 4, 8); (2, 4, 6) ]
  ∧ (∀ v l,
        evaluate b = Win v l ↔
        ∃ pre t post,
          lines = pre ++ t :: post ∧
          (∀ t', t' ∈ pre → ¬ line_matches b t') ∧
          holds_line b v t ∧
          l = Some [t.1.1; t.1.2; t.2])
  ∧ (evaluate b = Draw ↔
       (∀ t, t ∈ lines → ¬ line_matches b t) ∧ (∀ c, c ∈ b → c ≠ Null))
  ∧ (evaluate b = InProgress ↔
       (∀ t, t ∈ lines → ¬ line_matches b t) ∧ (∃ c, c ∈ b ∧ c = Null)).
Proof.
  intros _. split; [reflexivity|].
  destruct (evaluate_cases b)
    as [(pre & t & post & v & Hl & Hpre & Hv & He)|[Hno He]].
  - assert (line_matches b t) as Hm by (by exists v).
    pose proof (line_in_lines _ _ _ Hl) as Hin.
    split_and!.
    + intros v' l'. split.
      * rewrite He. intros [= <- <-]. by exists pre, t, post.
      * intros (pre' & t' & post' & Hl' & Hpre' & Hv' & ->).
        by apply (evaluate_first_line b pre' t' post' v').
    + rewrite He. split; [discriminate|]. intros [Hno _]. by destruct (Hno t Hin).
    + rewrite He. split; [discriminate|]. intros [Hno _]. by destruct (Hno t Hin).
  - split_and!.
    + intros v l. split.
      * rewrite He. by destruct (isBoardFull b).
      * intros (pre' & t' & post' & Hl' & _ & Hv' & _).
        destruct (Hno t' (line_in_lines _ _ _ Hl')). by exists v.
    + rewrite He. destruct (isBoardFull b) eqn:Hf.
      * split; [|done]. intros _. split; [done|]. by apply isBoardFull_spec.
      * split; [discriminate|]. intros [_ Hall%isBoardFull_spec]. congruence.
    + rewrite He. destruct (isBoardFull b) eqn:Hf.
      * split; [discriminate|]. intros [_ Hex%isBoardFull_false]. congruence.
      * split; [|done]. intros _. split; [done|]. by apply isBoardFull_false.
Qed.


Lemma evaluate_first_matching_triple_witness :
  length top_row_board = 9%nat
  ∧ (∀ v l,
        evaluate top_row_board = Win v l ↔
        ∃ pre t post,
          lines = pre ++ t :: post ∧
          (∀ t', t' ∈ pre → ¬ line_matches top_row_board t') ∧
          holds_line top_row_board v t ∧
          l = Some [t.1.1; t.1.2; t.2]).
Proof.
  split; [reflexivity|].
  exact (proj1 (proj2 (evaluate_first_matching_triple top_row_board eq_refl))).
Defined.

(** C9.  On every board of 9 cells the winner and the line returned by
    [calculateWinner] are null together or non-null together; a non-null
    line is one of the 8 fixed triples and its three cells hold the
    winner's mark. *)
Theorem winner_and_line_together (b : list Player) :
  length b = 9%nat →
  (winner (calculateWinner b) ≠ Null ↔ line (calculateWinner b) ≠ None)
  ∧ (∀ l, line (calculateWinner b) = Some l →
       ∃ x y z,
         l = [x; y; z] ∧ (x, y, z) ∈ lines ∧
         winner (calculateWinner b) ≠ Null ∧
         js_get b x = Some (winner (calculateWinner b)) ∧
         js_get b y = Some (winner (calculateWinner b)) ∧
         js_get b z = Some (winner (calculateWinner b))).
Proof.
  intros _. unfold calculateWinner.
  destruct (scan_lines_cases b lines)
    as [(pre & v & x & y & z & post & Hl & _ & Hv & ->)|[_ ->]]; simpl.
  - destruct Hv as (Hv & Hx & Hy & Hz); simpl in *. split.
    + split; intros _; done.
    + intros l [= <-]. exists x, y, z. split_and!; try done.
      by apply (line_in_lines pre _ post).
  - split; [split; intros H; by destruct H|]. intros l [=].
Qed.


Lemma winner_and_line_together_witness :
  length top_row_board = 9%nat
  ∧ (winner (calculateWinner top_row_board) ≠ Null
     ↔ line (calculateWinner top_row_board) ≠ None).
Proof.
  split; [reflexivity|].
  exact (proj1 (winner_and_line_together top_row_board eq_refl)).
Defined.

(** ** The session: status, accepted and rejected clicks *)

Lemma status_evaluate st : status st = status_of_verdict (evaluate (board st)).
Proof.
  unfold status, evaluate, isDraw.
  destruct (truthy (winner (calculateWinner (board st)))); [done|].
  simpl. by destruct (isBoardFull (board st)).
Qed.

Lemma isGameOver_terminal st : isGameOver st = true ↔ terminal (status st).
Proof.
  unfold isGameOver, status.
  destruct (truthy (winner (calculateWinner (board st)))); simpl; [done|].
  destruct (isDraw st); simpl; split; done.
Qed.

Lemma isGameOver_playing st : isGameOver st = false ↔ status st = Playing.
Proof.
  unfold isGameOver, status.
  destruct (truthy (winner (calculateWinner (board st)))); simpl; [done|].
  destruct (isDraw st); simpl; split; done.
Qed.

Lemma handleClick_rejected st index :
  isGameOver st = true ∨ js_get (board st) index ≠ Some Null →
  handleClick st index = st.
Proof.
  intros H. unfold handleClick.
  destruct (isGameOver st); [done|]. destruct H as [H|H]; [done|].
  destruct (strict_neq_null (js_get (board st) index)) eqn:E; [done|].
  by apply strict_neq_null_false in E.
Qed.

Lemma handleClick_accepted st index :
  isGameOver st = false → js_get (board st) index = Some Null →
  handleClick st index
  = {| board := js_set (board st) index (currentTurn st);
       xIsNext := negb (xIsNext st);
       hasStarted := true |}.
Proof.
  intros Hg Hc. unfold handleClick, currentTurn. rewrite Hg, Hc. simpl.
  by destruct (hasStarted st).
Qed.

(** The assignment [nextBoard[index] = ...] is reached only with [index] a
    position of the array: the guard returns on [undefined !== null]. *)
Lemma handleClick_writes_in_range st index :
  isGameOver st || strict_neq_null (js_get (board st) index) = false →
  0 <= index < Z.of_nat (length (board st)).
Proof.
  intros [_ H%strict_neq_null_false]%orb_false_elim.
  by apply js_get_Some in H.
Qed.

Lemma handleClick_length st index :
  length (board (handleClick st index)) = length (board st).
Proof.
  unfold handleClick. destruct (_ || _); [done|]. simpl. apply js_set_length.
Qed.

Lemma reachable_length st : reachable st → length (board st) = 9%nat.
Proof.
  induction 1 as [|st index _ IH|st _ _]; [done| |done].
  by rewrite handleClick_length.
Qed.

(** C2.  In a state that is in progress, a click on an empty cell with index
    in [0,8] writes the current mark into that cell and into no other, flips
    the turn, sets [hasStarted], and the new status is the evaluator's
    verdict on the new board (won with that mark and line, drawn, or still
    in progress). *)
Theorem handleClick_applies_move (st : State) (index : Z) :
  status st = Playing →
  0 <= index <= 8 →
  js_get (board st) index = Some Null →
  js_get (board (handleClick st index)) index = Some (currentTurn st)
  ∧ (∀ j, j ≠ index →
       js_get (board (handleClick st index)) j = js_get (board st) j)
  ∧ length (board (handleClick st index)) = length (board st)
  ∧ xIsNext (handleClick st index) = negb (xIsNext st)
  ∧ currentTurn (handleClick st index)
    = match currentTurn st with X => O | _ => X end
  ∧ hasStarted (handleClick st index) = true
  ∧ status (handleClick st index)
    = match evaluate (board (handleClick st index)) with
      | Win m l => Won m l
      | Draw => Drawn
      | InProgress => Playing
      end.
Proof.
  intros Hs%isGameOver_playing Hi Hc.
  split_and!; try (by rewrite status_evaluate);
    rewrite handleClick_accepted by done; simpl.
  - by apply (js_get_set_eq _ _ _ Null).
  - intros j Hj. apply js_get_set_ne; [lia|done].
  - apply js_set_length.
  - done.
  - unfold currentTurn; simpl. by destruct (xIsNext st).
  - done.
Qed.


Lemma handleClick_applies_move_witness :
  status initialState = Playing
  ∧ 0 <= 4 <= 8
  ∧ js_get (board initialState) 4 = Some Null
  ∧ js_get (board (handleClick initialState 4)) 4 = Some X.
Proof.
  assert (0 <= 4 <= 8) as Hi by lia.
  split; [reflexivity|]. split; [exact Hi|]. split; [reflexivity|].
  exact (proj1 (handleClick_applies_move initialState 4 eq_refl Hi eq_refl)).
Defined.

(** C3.  A click is ignored when the game is over, when the index is outside
    [0,8], or when the cell is not empty: the state after the click is the
    state before it, field for field, and so is the derived status.  The
    handler is a total function: no path of it throws. *)
Theorem handleClick_rejects (st : State) (index : Z) :
  length (board st) = 9%nat →
  terminal (status st) ∨ ¬ (0 <= index <= 8)
    ∨ js_get (board st) index ≠ Some Null →
  handleClick st index = st
  ∧ board (handleClick st index) = board st
  ∧ xIsNext (handleClick st index) = xIsNext st
  ∧ hasStarted (handleClick st index) = hasStarted st
  ∧ status (handleClick st index) = status st.
Proof.
  intros Hlen H.
  assert (handleClick st index = st) as ->; [|done].
  apply handleClick_rejected. destruct H as [H|[H|H]].
  - left. by apply isGameOver_terminal.
  - right. rewrite js_get_outside; [done|]. rewrite Hlen. lia.
  - by right.
Qed.


Lemma handleClick_rejects_witness :
  length (board initialState) = 9%nat
  ∧ ¬ (0 <= 9 <= 8)
  ∧ handleClick initialState 9 = initialState.
Proof.
  assert (¬ (0 <= 9 <= 8)) as Hout by lia.
  split; [reflexivity|]. split; [exact Hout|].
  exact (proj1 (handleClick_rejects initialState 9 eq_refl
                  (or_intror (or_introl Hout)))).
Defined.

(** C4.  From any state, [resetGame] gives the initial state: nine empty
    cells, X to move, not started, and a status that is in progress. *)
Theorem resetGame_initial (st : State) :
  resetGame st = initialState
  ∧ board (resetGame st) = replicate 9 Null
  ∧ length (board (resetGame st)) = 9%nat
  ∧ (∀ i, 0 <= i <= 8 → js_get (board (resetGame st)) i = Some Null)
  ∧ currentTurn (resetGame st) = X
  ∧ hasStarted (resetGame st) = false
  ∧ status (resetGame st) = Playing
  ∧ evaluate (board (resetGame st)) = InProgress.
Proof.
  split_and!; try done.
  intros i Hi. simpl.
  assert (i = 0 ∨ i = 1 ∨ i = 2 ∨ i = 3 ∨ i = 4 ∨ i = 5 ∨ i = 6 ∨ i = 7 ∨ i = 8)
    as Hcases by lia.
  destruct_or!; subst i; reflexivity.
Qed.


Lemma resetGame_initial_witness :
  0 <= 4 <= 8 ∧ js_get (board (resetGame top_row_state)) 4 = Some Null.
Proof.
  assert (0 <= 4 <= 8) as Hi by lia.
  split; [exact Hi|].
  destruct (resetGame_initial top_row_state) as (_ & _ & _ & Hcells & _).
  exact (Hcells 4 Hi).
Defined.

Lemma play_terminal st moves : terminal (status st) → play st moves = st.
Proof.
  intros Ht. unfold play. induction moves as [|i moves IH]; [done|].
  simpl. rewrite handleClick_rejected; [done|].
  left. by apply isGameOver_terminal.
Qed.

(** C5.  Once the status is won or drawn, any sequence of clicks leaves the
    whole state, so every cell, as it is, and the status stays terminal;
    [resetGame] is the way out. *)
Theorem terminal_absorbs_clicks (st : State) (moves : list Z) :
  terminal (status st) →
  play st moves = st
  ∧ board (play st moves) = board st
  ∧ (∀ i, js_get (board (play st moves)) i = js_get (board st) i)
  ∧ status (play st moves) = status st
  ∧ terminal (status (play st moves))
  ∧ status (resetGame (play st moves)) = Playing.
Proof.
  intros Ht. rewrite (play_terminal st moves Ht). by split_and!.
Qed.


Lemma terminal_absorbs_clicks_witness :
  terminal (status top_row_state)
  ∧ play top_row_state [5; 6] = top_row_state.
Proof.
  assert (terminal (status top_row_state)) as Ht by exact I.
  split; [exact Ht|].
  exact (proj1 (terminal_absorbs_clicks top_row_state [5; 6] Ht)).
Defined.

(** ** Two concrete games *)

(** C6.  From the initial state the clicks 0, 3, 1, 4, 2 are played by
    X, O, X, O, X; the game is in progress before each of them, and after
    the fifth the verdict is a win of X on the top row [0,1,2] and the
    status is won. *)
Theorem top_row_game :
  map (λ n, currentTurn (play initialState (take n [0; 3; 1; 4; 2])))
      (seq 0 5) = [X; O; X; O; X]
  ∧ map (λ n, status (play initialState (take n [0; 3; 1; 4; 2])))
        (seq 0 5) = [Playing; Playing; Playing; Playing; Playing]
  ∧ board (play initialState [0; 3; 1; 4; 2])
    = [X; X; X; O; O; Null; Null; Null; Null]
  ∧ evaluate (board (play initialState [0; 3; 1; 4; 2]))
    = Win X (Some [0; 1; 2])
  ∧ status (play initialState [0; 3; 1; 4; 2]) = Won X (Some [0; 1; 2])
  ∧ terminal (status (play initialState [0; 3; 1; 4; 2])).
Proof. by split_and!; vm_compute. Qed.

(** The sequence 0, 1, 2, 4, 3, 5, 6, 8, 7 does not end in a draw: its
    seventh click gives X the cells 0, 3 and 6, the left column. *)
Lemma left_column_game_not_drawn :
  ¬ (isBoardFull (board (play initialState [0; 1; 2; 4; 3; 5; 6; 8; 7])) = true
     ∧ (∀ n, has_line (board (play initialState
                                 (take n [0; 1; 2; 4; 3; 5; 6; 8; 7]))) X = false
             ∧ has_line (board (play initialState
                                   (take n [0; 1; 2; 4; 3; 5; 6; 8; 7]))) O = false)
     ∧ status (play initialState [0; 1; 2; 4; 3; 5; 6; 8; 7]) = Drawn).
Proof. intros (_ & _ & H). vm_compute in H. discriminate. Qed.

(** C7, as the code plays it.  From the initial state the clicks
    0, 1, 2, 4, 3, 5 leave no line to either mark; the seventh click, on
    6, completes the column [0,3,6] for X and the status becomes won; the
    clicks on 8 and 7 are then ignored, so the final board has seven marks,
    cells 7 and 8 are empty, and the final status is won by X on [0,3,6]. *)
Theorem left_column_game :
  map (λ n, let b := board (play initialState
                              (take n [0; 1; 2; 4; 3; 5; 6; 8; 7])) in
            (has_line b X, has_line b O, evaluate b))
      (seq 0 7)
  = replicate 7 (false, false, InProgress)
  ∧ status (play initialState [0; 1; 2; 4; 3; 5; 6]) = Won X (Some [0; 3; 6])
  ∧ play initialState [0; 1; 2; 4; 3; 5; 6; 8; 7]
    = play initialState [0; 1; 2; 4; 3; 5; 6]
  ∧ board (play initialState [0; 1; 2; 4; 3; 5; 6; 8; 7])
    = [X; O; X; X; O; O; X; Null; Null]
  ∧ isBoardFull (board (play initialState [0; 1; 2; 4; 3; 5; 6; 8; 7])) = false
  ∧ status (play initialState [0; 1; 2; 4; 3; 5; 6; 8; 7])
    = Won X (Some [0; 3; 6]).
Proof. by split_and!; vm_compute. Qed.

(** ** Reachable states *)

Lemma count_mark_insert v (l : list Player) n old new :
  l !! n = Some old →
  (count_mark v (<[n := new]> l) + (if decide (old = v) then 1 else 0)
   = count_mark v l + (if decide (new = v) then 1 else 0))%nat.
Proof.
  revert n. induction l as [|c l IH]; intros [|n] Hl; simplify_eq/=.
  - lia.
  - specialize (IH n Hl). lia.
Qed.

Lemma count_mark_js_set v b i old new :
  js_get b i = Some old →
  (count_mark v (js_set b i new) + (if decide (old = v) then 1 else 0)
   = count_mark v b + (if decide (new = v) then 1 else 0))%nat.
Proof.
  unfold js_get, js_set. case_decide; [|done]. apply count_mark_insert.
Qed.

Lemma has_line_spec b v :
  has_line b v = true ↔ ∃ t, t ∈ lines ∧ holds_line b v t.
Proof.
  unfold has_line. rewrite existsb_exists. split.
  - intros (t & Ht%list_elem_of_In & Hv%holds_lineb_spec). eauto.
  - intros (t & Ht%list_elem_of_In & Hv%holds_lineb_spec). eauto.
Qed.

Lemma playing_no_line st :
  isGameOver st = false → ∀ t, t ∈ lines → ¬ line_matches (board st) t.
Proof.
  intros [Hw _]%orb_false_elim. unfold calculateWinner in Hw.
  destruct (scan_lines_cases (board st) lines)
    as [(pre & v & x & y & z & post & _ & _ & [Hv _] & Hs)|[Hno _]]; [|done].
  rewrite Hs in Hw. simpl in Hw. apply truthy_false in Hw. done.
Qed.

(** A line held by a mark other than the one just written was already held
    before the write. *)
Lemma holds_line_before_write b i p q t :
  0 <= i → q ≠ p →
  holds_line (js_set b i p) q t → holds_line b q t.
Proof.
  intros Hi Hne (Hq & Hx & Hy & Hz).
  assert (∀ j, js_get (js_set b i p) j = Some q → js_get b j = Some q) as Hold.
  { intros j Hj. destruct (decide (j = i)) as [->|Hji].
    - destruct (js_get b i) as [c|] eqn:Ei.
      + rewrite (js_get_set_eq b i p c Ei) in Hj. congruence.
      + apply js_get_Some in Hj. rewrite js_set_length in Hj.
        destruct (js_get_inside b i Hj) as [c Hc]. congruence.
    - by rewrite js_get_set_ne in Hj. }
  split_and!; auto.
Qed.

Lemma handleClick_cases st index :
  handleClick st index = st
  ∨ (isGameOver st = false ∧ js_get (board st) index = Some Null ∧
     handleClick st index
     = {| board := js_set (board st) index (currentTurn st);
          xIsNext := negb (xIsNext st);
          hasStarted := true |}).
Proof.
  destruct (isGameOver st) eqn:Hg.
  - left. apply handleClick_rejected. by left.
  - destruct (decide (js_get (board st) index = Some Null)) as [Hc|Hc].
    + right. split_and!; [done..|]. by apply handleClick_accepted.
    + left. apply handleClick_rejected. by right.
Qed.

Lemma turn_counts_click st index :
  turn_counts st → turn_counts (handleClick st index).
Proof.
  intros [HX HO].
  destruct (handleClick_cases st index) as [->|(_ & Hc & ->)]; [done|].
  pose proof (count_mark_js_set X _ _ _ (currentTurn st) Hc) as HcX.
  pose proof (count_mark_js_set O _ _ _ (currentTurn st) Hc) as HcO.
  unfold turn_counts, currentTurn in *; simpl in *.
  destruct (xIsNext st); simpl in *.
  - specialize (HX eq_refl). split; [done|]. intros _. lia.
  - specialize (HO eq_refl). split; [|done]. intros _. lia.
Qed.

Lemma one_sided_click st index :
  one_sided (board st) → one_sided (board (handleClick st index)).
Proof.
  intros Hone.
  destruct (handleClick_cases st index) as [->|(Hg & Hc & ->)]; [done|].
  simpl. intros [HX HO].
  pose proof (js_get_Some _ _ _ Hc) as [Hi _].
  pose proof (playing_no_line st Hg) as Hno.
  apply has_line_spec in HX as (tX & HtX & HhX).
  apply has_line_spec in HO as (tO & HtO & HhO).
  unfold currentTurn in *. destruct (xIsNext st).
  - apply (Hno tO HtO). exists O.
    by apply (holds_line_before_write _ index X).
  - apply (Hno tX HtX). exists X.
    by apply (holds_line_before_write _ index O).
Qed.

(** C10.  In every state reachable from the initial state by clicks and
    resets: when X is to move the board holds as many X as O, when O is to
    move it holds exactly one more X than O, and the board never has a line
    of X together with a line of O. *)
Theorem reachable_counts_alternate (st : State) :
  reachable st →
  (currentTurn st = X →
   count_mark X (board st) = count_mark O (board st))
  ∧ (currentTurn st = O →
     count_mark X (board st) = S (count_mark O (board st)))
  ∧ ¬ (has_line (board st) X = true ∧ has_line (board st) O = true).
Proof.
  intros Hr.
  assert (turn_counts st ∧ one_sided (board st)) as [[HX HO] Hone];
    [|by split_and!].
  induction Hr as [|st index _ [IHc IHo]|st _ _].
  - split; [by split|]. by intros [? ?].
  - split; [by apply turn_counts_click|by apply one_sided_click].
  - split; [by split|]. by intros [? ?].
Qed.


Lemma reachable_counts_alternate_witness :
  reachable (handleClick initialState 4)
  ∧ (currentTurn (handleClick initialState 4) = O →
     count_mark X (board (handleClick initialState 4))
     = S (count_mark O (board (handleClick initialState 4)))).
Proof.
  assert (reachable (handleClick initialState 4)) as Hr.
  { apply reach_click, reach_init. }
  split; [exact Hr|].
  exact (proj1 (proj2 (reachable_counts_alternate _ Hr))).
Defined.

Lemma Store_readCell_at (h : gmap nat (list Player)) r b i :
  h !! r = Some b → Store.readCell r i h = (js_get b i, h).
Proof. intros Hr. unfold Store.readCell. by rewrite Hr. Qed.

Lemma Store_scan_lines_pure (h : gmap nat (list Player)) r b ls :
  h !! r = Some b →
  Store.scan_lines r ls h = (scan_lines b ls, h).
Proof.
  intros Hr. induction ls as [|[[x y] z] ls IH]; [done|].
  cbn [Store.scan_lines scan_lines]. unfold Store.bind.
  rewrite (Store_readCell_at h r b x Hr).
  destruct (js_get b x) as [p|]; [|done].
  destruct (truthy p); [|done].
  rewrite (Store_readCell_at h r b y Hr). cbn [andb].
  destruct (strict_eq (Some p) (js_get b y)); [|done].
  rewrite (Store_readCell_at h r b z Hr).
  by destruct (strict_eq (Some p) (js_get b z)).
Qed.

Lemma Store_evaluate_pure (h : gmap nat (list Player)) r b :
  h !! r = Some b →
  Store.evaluate r h = (evaluate b, h).
Proof.
  intros Hr. unfold Store.evaluate, Store.calculateWinner, Store.bind.
  rewrite (Store_scan_lines_pure h r b lines Hr).
  unfold evaluate, calculateWinner.
  destruct (truthy (winner (scan_lines b lines))); [done|].
  unfold Store.isBoardFull, Store.bind, Store.readArray, Store.ret.
  by rewrite Hr.
Qed.

(** The write of [handleClick] goes to a copy: the array it was given is
    still in the store, unchanged, and the new array is the updated one. *)
Lemma Store_nextBoard_copy (h : gmap nat (list Player)) r b index mark :
  h !! r = Some b →
  ∃ r' h',
    Store.nextBoard r index mark h = (r', h') ∧
    r' ≠ r ∧ h' !! r = Some b ∧ h' !! r' = Some (js_set b index mark).
Proof.
  intros Hr. exists (fresh (dom h)), (<[fresh (dom h) := js_set b index mark]> h).
  assert (h !! fresh (dom h) = None) as Hfresh.
  { apply not_elem_of_dom, is_fresh. }
  assert (fresh (dom h) ≠ r) as Hne by congruence.
  split_and!.
  - unfold Store.nextBoard, Store.bind, Store.slice, Store.writeCell, Store.ret.
    rewrite Hr. simpl. f_equal.
    apply map_eq. intros k. destruct (decide (k = fresh (dom h))) as [->|Hk].
    + by rewrite lookup_alter_eq, !lookup_insert_eq.
    + by rewrite lookup_alter_ne, !lookup_insert_ne.
  - done.
  - by rewrite lookup_insert_ne.
  - by rewrite lookup_insert_eq.
Qed.

(** C8.  The evaluator is a function of the contents of the board: on two
    stores whose boards have equal contents it gives equal verdicts; it
    leaves the store, and so its argument, as it found it; and evaluating
    the same board again gives the same verdict again. *)
Theorem evaluate_is_pure (h1 h2 : gmap nat (list Player)) (r1 r2 : nat)
    (b : list Player) :
  h1 !! r1 = Some b →
  h2 !! r2 = Some b →
  (Store.evaluate r1 h1).1 = (Store.evaluate r2 h2).1
  ∧ (Store.evaluate r1 h1).1 = evaluate b
  ∧ (Store.evaluate r1 h1).2 = h1
  ∧ (Store.evaluate r1 h1).2 !! r1 = Some b
  ∧ Store.bind (Store.evaluate r1)
      (λ v, Store.bind (Store.evaluate r1) (λ v', Store.ret (v, v'))) h1
    = ((evaluate b, evaluate b), h1).
Proof.
  intros H1 H2. unfold Store.bind.
  rewrite (Store_evaluate_pure h1 r1 b H1), (Store_evaluate_pure h2 r2 b H2).
  simpl. by rewrite (Store_evaluate_pure h1 r1 b H1).
Qed.


Lemma evaluate_is_pure_witness :
  ({[ 0%nat := top_row_board ]} : gmap nat (list Player)) !! 0%nat
    = Some top_row_board
  ∧ ({[ 3%nat := top_row_board ]} : gmap nat (list Player)) !! 3%nat
    = Some top_row_board
  ∧ (Store.evaluate 0 {[ 0%nat := top_row_board ]}).1
    = (Store.evaluate 3 {[ 3%nat := top_row_board ]}).1.
Proof.
  split; [reflexivity|]. split; [reflexivity|].
  exact (proj1 (evaluate_is_pure {[ 0%nat := top_row_board ]}
                  {[ 3%nat := top_row_board ]} 0 3 top_row_board
                  eq_refl eq_refl)).
Defined.

(** ** More about calculateWinner *)

Lemma has_line_Null b : has_line b Null = false.
Proof.
  destruct (has_line b Null) eqn:E; [|done].
  apply has_line_spec in E as (t & _ & Hnull & _). done.
Qed.

Lemma no_line_has_line b v :
  (∀ t, t ∈ lines → ¬ line_matches b t) → has_line b v = false.
Proof.
  intros Hno. destruct (has_line b v) eqn:E; [|done].
  apply has_line_spec in E as (t & Ht & Hv). destruct (Hno t Ht). by exists v.
Qed.

Lemma has_line_winner b :
  has_line b (winner (calculateWinner b)) = truthy (winner (calculateWinner b)).
Proof.
  unfold calculateWinner.
  destruct (scan_lines_cases b lines)
    as [(pre & v & x & y & z & post & Hl & _ & Hv & ->)|[Hno ->]]; simpl.
  - destruct Hv as [Hnn Hcells]. apply truthy_not_null in Hnn as Ht.
    rewrite Ht. apply has_line_spec. exists (x, y, z). split; [|done].
    by apply (line_in_lines pre _ post).
  - apply has_line_Null.
Qed.

(** X1.  [calculateWinner] reports a winner exactly when X or O holds one
    of the eight lines, and the mark it reports holds a line itself. *)
Theorem winner_iff_line_held (b : list Player) :
  truthy (winner (calculateWinner b)) = has_line b X || has_line b O
  ∧ has_line b (winner (calculateWinner b))
    = truthy (winner (calculateWinner b)).
Proof.
  split; [|apply has_line_winner].
  pose proof (has_line_winner b) as Hw. unfold calculateWinner in *.
  destruct (scan_lines_cases b lines)
    as [(pre & v & x & y & z & post & _ & _ & [Hv _] & Hs)|[Hno Hs]];
    rewrite Hs in *; simpl in *.
  - destruct v; simpl in *; [by rewrite Hw | by rewrite Hw, orb_true_r | done].
  - by rewrite !no_line_has_line.
Qed.

Lemma js_get_fmap (f : Player → Player) b i :
  js_get (f <$> b) i = f <$> js_get b i.
Proof. unfold js_get. case_decide; [|done]. apply list_lookup_fmap. Qed.

Lemma scan_lines_swap b ls :
  scan_lines (swap_mark <$> b) ls
  = {| winner := swap_mark (winner (scan_lines b ls));
       line := line (scan_lines b ls) |}.
Proof.
  induction ls as [|[[x y] z] ls IH]; [done|].
  cbn [scan_lines]. rewrite !js_get_fmap.
  destruct (js_get b x) as [p|]; [|done]. cbn [fmap option_fmap option_map].
  assert (∀ o, strict_eq (Some (swap_mark p)) (swap_mark <$> o)
               = strict_eq (Some p) o) as Heq.
  { intros [q|]; [|done]. unfold strict_eq. by destruct p, q. }
  rewrite !Heq.
  assert (truthy (swap_mark p) = truthy p) as -> by (by destruct p).
  by destruct (truthy p && _ && _).
Qed.

(** X2.  The evaluator treats the two marks alike: on the board with X and O
    exchanged it reports the other mark on the same line. *)
Theorem calculateWinner_swap (b : list Player) :
  calculateWinner (swap_mark <$> b)
  = {| winner := swap_mark (winner (calculateWinner b));
       line := line (calculateWinner b) |}.
Proof. apply scan_lines_swap. Qed.

(** X3.  On an array with fewer than three cells every line meets an
    [undefined] cell, and the result is no winner and no line. *)
Theorem calculateWinner_short (b : list Player) :
  (length b <= 2)%nat →
  calculateWinner b = {| winner := Null; line := None |}.
Proof.
  intros Hlen. destruct b as [|c0 [|c1 [|c2 b]]]; simpl in Hlen; [| | |lia].
  - reflexivity.
  - by destruct c0.
  - by destruct c0, c1.
Qed.

Lemma calculateWinner_short_witness :
  (length [X; X] <= 2)%nat
  ∧ calculateWinner [X; X] = {| winner := Null; line := None |}.
Proof.
  assert (length [X; X] <= 2)%nat as Hlen by (simpl; lia).
  split; [exact Hlen|]. exact (calculateWinner_short [X; X] Hlen).
Defined.

(** ** More about handleClick *)

Lemma handleClick_other_cells st index j :
  j ≠ index →
  js_get (board (handleClick st index)) j = js_get (board st) j.
Proof.
  intros Hj.
  destruct (handleClick_cases st index) as [->|(_ & Hc & ->)]; [done|].
  simpl. apply js_get_set_ne; [|done]. by apply js_get_Some in Hc as [? _].
Qed.

Lemma handleClick_keeps_mark st index j v :
  js_get (board st) j = Some v → v ≠ Null →
  js_get (board (handleClick st index)) j = Some v.
Proof.
  intros Hj Hv. destruct (decide (j = index)) as [->|Hne].
  - rewrite handleClick_rejected; [done|]. right. congruence.
  - by rewrite handleClick_other_cells.
Qed.

(** X4.  A mark, once on the board, stays where it is through any sequence
    of clicks: no click overwrites or erases a non-empty cell. *)
Theorem play_keeps_marks (st : State) (moves : list Z) (j : Z) (v : Player) :
  js_get (board st) j = Some v →
  v ≠ Null →
  js_get (board (play st moves)) j = Some v.
Proof.
  unfold play. revert st.
  induction moves as [|index moves IH]; intros st Hj Hv; [done|].
  simpl. apply IH; [|done]. by apply handleClick_keeps_mark.
Qed.

Lemma play_keeps_marks_witness :
  js_get (board (handleClick initialState 4)) 4 = Some X
  ∧ X ≠ Null
  ∧ js_get (board (play (handleClick initialState 4) [4; 0; 4])) 4 = Some X.
Proof.
  assert (X ≠ Null) as Hv by discriminate.
  split; [reflexivity|]. split; [exact Hv|].
  exact (play_keeps_marks (handleClick initialState 4) [4; 0; 4] 4 X
           eq_refl Hv).
Defined.

(** X5.  A second click on the same cell does nothing, whatever the first
    one did. *)
Theorem handleClick_twice (st : State) (index : Z) :
  handleClick (handleClick st index) index = handleClick st index.
Proof.
  destruct (handleClick_cases st index) as [H|(_ & Hc & H)].
  - by rewrite !H.
  - apply handleClick_rejected. right. rewrite H. simpl.
    rewrite (js_get_set_eq _ _ _ _ Hc). unfold currentTurn.
    by destruct (xIsNext st).
Qed.

(** ** Counting cells *)

Lemma count_mark_total b :
  (count_mark X b + count_mark O b + count_mark Null b = length b)%nat.
Proof.
  induction b as [|c b IH]; [done|]. destruct c; simpl; lia.
Qed.

Lemma isBoardFull_count b : isBoardFull b = true ↔ count_mark Null b = 0%nat.
Proof.
  induction b as [|c b IH]; [done|].
  destruct c; simpl; try exact IH. split; [discriminate|lia].
Qed.

Lemma handleClick_guard st index :
  isGameOver st || strict_neq_null (js_get (board st) index) = true →
  handleClick st index = st.
Proof. intros H. unfold handleClick. by rewrite H. Qed.

Lemma handleClick_fills st index :
  isGameOver st || strict_neq_null (js_get (board st) index) = false →
  (count_mark Null (board (handleClick st index)) + 1
   = count_mark Null (board st))%nat.
Proof.
  intros [Hg Hc%strict_neq_null_false]%orb_false_elim.
  rewrite handleClick_accepted by done. simpl.
  pose proof (count_mark_js_set Null _ _ _ (currentTurn st) Hc) as Hn.
  rewrite decide_True in Hn by done.
  rewrite decide_False in Hn; [lia|].
  unfold currentTurn. by destruct (xIsNext st).
Qed.

(** X6.  Every click that passes the guard fills one empty cell, so along
    any sequence of clicks the number of accepted clicks and the number of
    cells still empty add up to the number of cells that were empty; no
    sequence has more accepted clicks than the board has cells. *)
Theorem accepted_clicks_fill_cells (st : State) (moves : list Z) :
  (accepted st moves + count_mark Null (board (play st moves))
   = count_mark Null (board st))%nat
  ∧ (accepted st moves <= length (board st))%nat.
Proof.
  assert (accepted st moves + count_mark Null (board (play st moves))
          = count_mark Null (board st))%nat as Heq.
  { unfold play. revert st.
    induction moves as [|index moves IH]; intros st; [done|].
    cbn [accepted foldl]. specialize (IH (handleClick st index)).
    destruct (isGameOver st || strict_neq_null (js_get (board st) index))
      eqn:Hguard.
    - rewrite (handleClick_guard st index Hguard) in *. lia.
    - pose proof (handleClick_fills st index Hguard). lia. }
  split; [done|]. pose proof (count_mark_total (board st)). lia.
Qed.

(** ** More invariants of the reachable states *)

Lemma reachable_turn_counts st : reachable st → turn_counts st.
Proof.
  induction 1 as [|st index _ IH|st _ _].
  - by split.
  - by apply turn_counts_click.
  - by split.
Qed.

(** X7.  In every reachable state the board has nine cells, X has at most
    five of them and O at most four; when the board is full, X has five, O
    has four, and it was X who moved last. *)
Theorem reachable_board_counts (st : State) :
  reachable st →
  length (board st) = 9%nat
  ∧ (count_mark X (board st) <= 5)%nat
  ∧ (count_mark O (board st) <= 4)%nat
  ∧ (isBoardFull (board st) = true →
     count_mark X (board st) = 5%nat ∧ count_mark O (board st) = 4%nat
     ∧ currentTurn st = O).
Proof.
  intros Hr.
  pose proof (reachable_length st Hr) as Hlen.
  pose proof (reachable_turn_counts st Hr) as [HX HO].
  pose proof (count_mark_total (board st)) as Htot.
  unfold currentTurn in *. destruct (xIsNext st).
  - specialize (HX eq_refl). split_and!; [done|lia|lia|].
    intros Hfull%isBoardFull_count. lia.
  - specialize (HO eq_refl). split_and!; [done|lia|lia|].
    intros Hfull%isBoardFull_count. split_and!; [lia|lia|done].
Qed.

Lemma reachable_board_counts_witness :
  reachable (play initialState [0; 1; 2; 4; 3; 5; 7; 6; 8])
  ∧ (isBoardFull (board (play initialState [0; 1; 2; 4; 3; 5; 7; 6; 8])) = true →
     count_mark X (board (play initialState [0; 1; 2; 4; 3; 5; 7; 6; 8])) = 5%nat
     ∧ count_mark O (board (play initialState [0; 1; 2; 4; 3; 5; 7; 6; 8])) = 4%nat
     ∧ currentTurn (play initialState [0; 1; 2; 4; 3; 5; 7; 6; 8]) = O).
Proof.
  assert (reachable (play initialState [0; 1; 2; 4; 3; 5; 7; 6; 8])) as Hr.
  { unfold play. simpl. repeat apply reach_click. apply reach_init. }
  split; [exact Hr|].
  exact (proj2 (proj2 (proj2 (reachable_board_counts _ Hr)))).
Defined.

Lemma js_get_replicate_Null n j v :
  js_get (replicate n Null) j = Some v → v = Null.
Proof.
  unfold js_get. case_decide; [|done].
  intros [-> _]%lookup_replicate. done.
Qed.

Lemma hasStarted_click st index :
  (hasStarted st = false → st = initialState)
  ∧ (hasStarted st = true →
     ∃ j v, js_get (board st) j = Some v ∧ v ≠ Null) →
  (hasStarted (handleClick st index) = false
     → handleClick st index = initialState)
  ∧ (hasStarted (handleClick st index) = true →
     ∃ j v, js_get (board (handleClick st index)) j = Some v ∧ v ≠ Null).
Proof.
  intros IH.
  destruct (handleClick_cases st index) as [->|(_ & Hc & ->)]; [done|].
  simpl. split; [discriminate|]. intros _.
  exists index, (currentTurn st). split.
  - by apply (js_get_set_eq _ _ _ Null).
  - unfold currentTurn. by destruct (xIsNext st).
Qed.

(** X8.  In every reachable state [hasStarted] is false exactly in the
    initial state and true exactly when some cell of the board is marked. *)
Theorem reachable_hasStarted (st : State) :
  reachable st →
  (hasStarted st = false ↔ st = initialState)
  ∧ (hasStarted st = true ↔
     ∃ j v, js_get (board st) j = Some v ∧ v ≠ Null).
Proof.
  intros Hr.
  assert ((hasStarted st = false → st = initialState)
          ∧ (hasStarted st = true →
             ∃ j v, js_get (board st) j = Some v ∧ v ≠ Null)) as [Hf Ht].
  { induction Hr as [|st index _ IH|st _ _].
    - split; [done|discriminate].
    - by apply hasStarted_click.
    - split; [done|discriminate]. }
  split.
  - split; [done|]. by intros ->.
  - split; [done|]. intros (j & v & Hj & Hv).
    destruct (hasStarted st) eqn:Hs; [done|].
    rewrite (Hf eq_refl) in Hj. by apply js_get_replicate_Null in Hj.
Qed.

Lemma reachable_hasStarted_witness :
  reachable (handleClick initialState 4)
  ∧ (hasStarted (handleClick initialState 4) = true ↔
     ∃ j v, js_get (board (handleClick initialState 4)) j = Some v ∧ v ≠ Null).
Proof.
  assert (reachable (handleClick initialState 4)) as Hr.
  { apply reach_click, reach_init. }
  split; [exact Hr|]. exact (proj2 (reachable_hasStarted _ Hr)).
Defined.

Lemma mover_has_no_line_click st index :
  has_line (board st) (currentTurn st) = false →
  has_line (board (handleClick st index))
           (currentTurn (handleClick st index)) = false.
Proof.
  intros IH.
  destruct (handleClick_cases st index) as [->|(Hg & Hc & ->)]; [done|].
  apply not_true_is_false. intros E.
  apply has_line_spec in E as (t & Ht & Hh). simpl in Hh.
  pose proof (js_get_Some _ _ _ Hc) as [Hi _].
  apply (playing_no_line st Hg t Ht).
  exists (currentTurn {| board := js_set (board st) index (currentTurn st);
                         xIsNext := negb (xIsNext st); hasStarted := true |}).
  apply (holds_line_before_write _ index (currentTurn st)); [done| |done].
  unfold currentTurn; simpl. by destruct (xIsNext st).
Qed.

(** X9.  In every reachable state the mark whose turn it is holds no line;
    so when there is a winner, it is the mark that moved last. *)
Theorem reachable_winner_moved_last (st : State) :
  reachable st →
  has_line (board st) (currentTurn st) = false
  ∧ (winner (calculateWinner (board st)) ≠ Null →
     winner (calculateWinner (board st)) = swap_mark (currentTurn st)).
Proof.
  intros Hr.
  assert (has_line (board st) (currentTurn st) = false) as Hno.
  { induction Hr as [|st index _ IH|st _ _]; [done| |done].
    by apply mover_has_no_line_click. }
  split; [done|]. intros Hw%truthy_not_null.
  pose proof (has_line_winner (board st)) as Hl. rewrite Hw in Hl.
  unfold currentTurn in *.
  destruct (winner (calculateWinner (board st))), (xIsNext st);
    simpl in *; congruence.
Qed.

Lemma reachable_winner_moved_last_witness :
  reachable top_row_state
  ∧ has_line (board top_row_state) (currentTurn top_row_state) = false.
Proof.
  assert (reachable top_row_state) as Hr.
  { unfold top_row_state, play. simpl. repeat apply reach_click.
    apply reach_init. }
  split; [exact Hr|]. exact (proj1 (reachable_winner_moved_last _ Hr)).
Defined.

(** ** The highlighted cells *)

Lemma highlights_seq st :
  highlights st
  = (λ i, highlight st (Z.of_nat i)) <$> seq 0 (length (board st)).
Proof. unfold highlights. apply imap_seq_0. Qed.

Lemma count_true_fmap {A} (g : A → bool) (l : list A) :
  length (filter (λ h : bool, h = true) (g <$> l))
  = length (filter (λ i, g i = true) l).
Proof.
  induction l as [|x l IH]; [done|].
  rewrite fmap_cons, !filter_cons.
  destruct (decide (g x = true)); simpl; by rewrite IH.
Qed.

Lemma filter_none {A} (P : A → Prop) `{∀ x, Decision (P x)} (l : list A) :
  (∀ x, x ∈ l → ¬ P x) → filter P l = [].
Proof.
  induction l as [|x l IH]; intros Hno; [done|].
  rewrite filter_cons_False by (apply Hno; by left).
  apply IH. intros y Hy. apply Hno. by right.
Qed.

(** The positions below [n] that belong to a duplicate-free list of
    positions below [n] are as many as the list is long. *)
Lemma count_positions (ln : list nat) (n : nat) :
  NoDup ln → (∀ k, k ∈ ln → (k < n)%nat) →
  length (filter (λ i, i ∈ ln) (seq 0 n)) = length ln.
Proof.
  intros Hnd Hlt. apply Permutation_length, NoDup_Permutation.
  - apply NoDup_filter, NoDup_seq.
  - done.
  - intros k. rewrite list_elem_of_filter, elem_of_seq. split; [tauto|].
    intros Hk. split; [done|]. specialize (Hlt k Hk). lia.
Qed.

Lemma line_positions x y z :
  (x, y, z) ∈ lines →
  NoDup [Z.to_nat x; Z.to_nat y; Z.to_nat z]
  ∧ ∀ i : nat,
      Z.of_nat i ∈ [x; y; z] ↔ i ∈ [Z.to_nat x; Z.to_nat y; Z.to_nat z].
Proof.
  unfold lines. rewrite !elem_of_cons, elem_of_nil.
  intros H. destruct_or!; simplify_eq; split;
    try (intros i; rewrite !elem_of_cons, !elem_of_nil; lia);
    repeat (apply NoDup_cons; split;
            [rewrite ?elem_of_cons, elem_of_nil; lia|]);
    apply NoDup_nil_2.
Qed.

Lemma filter_iff {A} (P Q : A → Prop)
    `{∀ x, Decision (P x)} `{∀ x, Decision (Q x)} (l : list A) :
  (∀ x, P x ↔ Q x) → filter P l = filter Q l.
Proof.
  intros HPQ. induction l as [|x l IH]; [done|].
  rewrite !filter_cons, IH.
  destruct (decide (P x)) as [HP|HP], (decide (Q x)) as [HQ|HQ];
    try done; by apply HPQ in HP || apply HPQ in HQ.
Qed.

(** X10.  The board renders one highlight flag per cell.  When there is a
    winner exactly three cells are highlighted, otherwise none; a
    highlighted cell is a cell of the board and holds the winner's mark. *)
Theorem highlights_winning_line (st : State) :
  length (highlights st) = length (board st)
  ∧ length (filter (λ h : bool, h = true) (highlights st))
    = (if truthy (winner (calculateWinner (board st))) then 3 else 0)%nat
  ∧ (∀ idx, highlight st idx = true →
       winner (calculateWinner (board st)) ≠ Null
       ∧ js_get (board st) idx = Some (winner (calculateWinner (board st)))).
Proof.
  split; [by rewrite highlights_seq, length_fmap, length_seq|].
  rewrite highlights_seq, count_true_fmap. unfold highlight, calculateWinner.
  destruct (scan_lines_cases (board st) lines)
    as [(pre & v & x & y & z & post & Hl & _ & Hv & ->)|[_ ->]]; simpl.
  - destruct Hv as (Hnn & Hx & Hy & Hz); simpl in *.
    apply truthy_not_null in Hnn as Ht. rewrite Ht.
    pose proof (line_positions x y z (line_in_lines pre _ post Hl))
      as [Hnd Hmem].
    split.
    + rewrite (filter_iff _
                 (λ i, i ∈ [Z.to_nat x; Z.to_nat y; Z.to_nat z])).
      * apply (count_positions [Z.to_nat x; Z.to_nat y; Z.to_nat z]);
          [done|].
        intros k Hk. apply Hmem in Hk.
        apply elem_of_cons in Hk as [Hk|Hk];
          [|apply elem_of_cons in Hk as [Hk|Hk];
            [|apply list_elem_of_singleton in Hk]].
        all: rewrite <- Hk in *.
        -- apply js_get_Some in Hx. lia.
        -- apply js_get_Some in Hy. lia.
        -- apply js_get_Some in Hz. lia.
      * intros i. rewrite bool_decide_eq_true. apply Hmem.
    + intros idx Hidx%bool_decide_eq_true. split; [done|].
      apply elem_of_cons in Hidx as [->|Hidx]; [done|].
      apply elem_of_cons in Hidx as [->|Hidx]; [done|].
      by apply list_elem_of_singleton in Hidx as ->.
  - split; [|by intros idx]. by rewrite filter_none.
Qed.

Lemma highlights_winning_line_witness :
  highlight top_row_state 1 = true
  ∧ winner (calculateWinner (board top_row_state)) ≠ Null
  ∧ js_get (board top_row_state) 1
    = Some (winner (calculateWinner (board top_row_state))).
Proof.
  split; [reflexivity|].
  exact (proj2 (proj2 (highlights_winning_line top_row_state)) 1 eq_refl).
Defined.

(** ** The status line and the labels *)

(** X11.  The status text tells the status apart: two states with the same
    text (in either wording of the component) have the same winner, are both
    drawn or both not, show the same turn while the game is in progress,
    and have the same status colour. *)
Theorem statusText_decodes (st st' : State) :
  statusText st = statusText st'
    ∨ statusTextPieces st = statusTextPieces st' →
  winner (calculateWinner (board st)) = winner (calculateWinner (board st'))
  ∧ isDraw st = isDraw st'
  ∧ (status st = Playing → xIsNext st = xIsNext st')
  ∧ statusColor st = statusColor st'.
Proof.
  unfold statusText, statusTextPieces, statusColor, status, isDraw.
  destruct (calculateWinner (board st)) as [w l],
    (calculateWinner (board st')) as [w' l'].
  destruct w, w', (isBoardFull (board st)), (isBoardFull (board st')),
    (xIsNext st), (xIsNext st');
    vm_compute; intros [H|H]; try discriminate H;
    (split_and!; [reflexivity..| |reflexivity]); intros H'; done.
Qed.

Lemma statusText_decodes_witness :
  (statusText initialState = statusText (play initialState [0; 1])
   ∨ statusTextPieces initialState
     = statusTextPieces (play initialState [0; 1]))
  ∧ statusColor initialState = statusColor (play initialState [0; 1]).
Proof.
  assert (statusText initialState = statusText (play initialState [0; 1])
          ∨ statusTextPieces initialState
            = statusTextPieces (play initialState [0; 1])) as H.
  { left. reflexivity. }
  split; [exact H|].
  exact (proj2 (proj2 (proj2
           (statusText_decodes initialState (play initialState [0; 1]) H)))).
Defined.

(** X12.  The status line is drawn in the winner's cell colour when there
    is a winner, in the error colour exactly when the game is drawn, and in
    the text colour exactly while the game is in progress. *)
Theorem statusColor_cases (st : State) :
  (winner (calculateWinner (board st)) ≠ Null →
   statusColor st = cellColor (winner (calculateWinner (board st))))
  ∧ (statusColor st = COLORS.error ↔ status st = Drawn)
  ∧ (statusColor st = COLORS.text ↔ status st = Playing).
Proof.
  unfold statusColor, status, isDraw.
  destruct (calculateWinner (board st)) as [w l].
  destruct w, (isBoardFull (board st)); vm_compute;
    split_and!; intros H;
    first [reflexivity | discriminate H | by destruct H].
Qed.

Lemma statusColor_cases_witness :
  winner (calculateWinner (board top_row_state)) ≠ Null
  ∧ statusColor top_row_state
    = cellColor (winner (calculateWinner (board top_row_state))).
Proof.
  assert (winner (calculateWinner (board top_row_state)) ≠ Null) as Hw.
  { vm_compute. discriminate. }
  split; [exact Hw|].
  exact (proj1 (statusColor_cases top_row_state) Hw).
Defined.

(** X13.  The labels of the nine buttons tell the cells and their contents
    apart: two labels are equal only for the same cell with the same
    content. *)
Theorem ariaLabel_distinct (idx idx' : nat) (v v' : Player) :
  (idx < 9)%nat → (idx' < 9)%nat →
  ariaLabel idx v = ariaLabel idx' v' →
  idx = idx' ∧ v = v'.
Proof.
  intros Hi Hi'.
  destruct idx as [|[|[|[|[|[|[|[|[|idx]]]]]]]]]; [..|lia];
    (destruct idx' as [|[|[|[|[|[|[|[|[|idx']]]]]]]]]; [..|lia]);
    destruct v, v'; vm_compute; intros H;
    first [discriminate H | done].
Qed.

Lemma ariaLabel_distinct_witness :
  (4 < 9)%nat
  ∧ ariaLabel 4 X = ariaLabel 4 X
  ∧ (4%nat = 4%nat ∧ X = X).
Proof.
  assert (4 < 9)%nat as H4 by lia.
  split; [exact H4|]. split; [reflexivity|].
  exact (ariaLabel_distinct 4 4 X X H4 H4 eq_refl).
Defined.

(** ** The copy that handleClick writes to *)



(** ** When a click counts, and how early a game can be won *)

(** X15.  A click changes the state exactly when the game is in progress
    and the clicked cell is an empty cell of the board. *)
Theorem handleClick_changes_iff (st : State) (index : Z) :
  handleClick st index ≠ st
  ↔ status st = Playing ∧ js_get (board st) index = Some Null.
Proof.
  split.
  - intros Hne.
    destruct (handleClick_cases st index) as [H|(Hg & Hc & _)]; [done|].
    split; [by apply isGameOver_playing|done].
  - intros [Hs%isGameOver_playing Hc] Heq.
    rewrite handleClick_accepted in Heq by done.
    apply (f_equal xIsNext) in Heq. simpl in Heq. by destruct (xIsNext st).
Qed.

(** Distinct positions that all hold [v] are at most as many as the cells
    that hold [v]. *)
Lemma count_mark_positions v (ln : list nat) (b : list Player) :
  NoDup ln → (∀ k, k ∈ ln → b !! k = Some v) →
  (length ln <= count_mark v b)%nat.
Proof.
  revert b. induction ln as [|k ln IH]; intros b Hnd Hall; [simpl; lia|].
  apply NoDup_cons in Hnd as [Hk Hnd].
  set (w := if decide (v = Null) then X else Null).
  assert (w ≠ v) as Hw by (unfold w; case_decide; congruence).
  pose proof (count_mark_insert v b k v w (Hall k ltac:(by left))) as Hc.
  rewrite decide_True, decide_False in Hc by done.
  specialize (IH (<[k := w]> b) Hnd).
  assert (length ln <= count_mark v (<[k := w]> b))%nat; [|simpl; lia].
  apply IH. intros j Hj. rewrite list_lookup_insert_ne.
  - apply Hall. by right.
  - intros ->. done.
Qed.

Lemma has_line_three b v : has_line b v = true → (3 <= count_mark v b)%nat.
Proof.
  intros (t & Ht & _ & Hx & Hy & Hz)%has_line_spec.
  destruct t as [[x y] z]. simpl in *.
  destruct (line_positions x y z Ht) as [Hnd _].
  apply (count_mark_positions v _ b) in Hnd; [done|].
  intros k Hk.
  apply elem_of_cons in Hk as [->|Hk];
    [|apply elem_of_cons in Hk as [->|Hk];
      [|apply list_elem_of_singleton in Hk as ->]].
  - unfold js_get in Hx. by case_decide.
  - unfold js_get in Hy. by case_decide.
  - unfold js_get in Hz. by case_decide.
Qed.

(** X16.  A mark that holds a line has at least three cells; so in a
    reachable state with a winner at least five cells are marked: no game
    is won before the fifth accepted click. *)
Theorem reachable_win_needs_five (st : State) :
  reachable st →
  winner (calculateWinner (board st)) ≠ Null →
  (3 <= count_mark (winner (calculateWinner (board st))) (board st))%nat
  ∧ (count_mark Null (board st) <= 4)%nat.
Proof.
  intros Hr Hw%truthy_not_null.
  pose proof (has_line_winner (board st)) as Hl. rewrite Hw in Hl.
  apply has_line_three in Hl. split; [done|].
  pose proof (reachable_length st Hr) as Hlen.
  pose proof (reachable_turn_counts st Hr) as [HX HO].
  pose proof (count_mark_total (board st)) as Htot.
  assert (has_line (board st) (currentTurn st) = false) as Hno.
  { clear -Hr. induction Hr as [|st index _ IH|st _ _]; [done| |done].
    by apply mover_has_no_line_click. }
  pose proof (has_line_winner (board st)) as Hl'. rewrite Hw in Hl'.
  unfold currentTurn in *.
  destruct (winner (calculateWinner (board st))), (xIsNext st);
    simpl in *; try congruence.
  - specialize (HO eq_refl). lia.
  - specialize (HX eq_refl). lia.
Qed.

Lemma reachable_win_needs_five_witness :
  reachable top_row_state
  ∧ winner (calculateWinner (board top_row_state)) ≠ Null
  ∧ (count_mark Null (board top_row_state) <= 4)%nat.
Proof.
  assert (reachable top_row_state) as Hr.
  { unfold top_row_state, play. simpl. repeat apply reach_click.
    apply reach_init. }
  assert (winner (calculateWinner (board top_row_state)) ≠ Null) as Hw.
  { vm_compute. discriminate. }
  split; [exact Hr|]. split; [exact Hw|].
  exact (proj2 (reachable_win_needs_five top_row_state Hr Hw)).
Defined.
